(** * Home.tsx: the chat client's state machine

    A shallow embedding of [src/components/Home.tsx]: the hooks of the
    [Home] component, the socket listeners installed by its mount effect,
    its form handlers, the asynchronous [fetchOnlineUsers] and the part of
    the rendered view that the handlers and the browser depend on.

    Conventions of the embedding.
    - A handler or listener is a function from the variables it closes
      over (its _scope_, the hook values of the render that created it)
      and its arguments to the list of effects it performs, in program
      order.  Effects are interpreted over a [World] by [exec].
    - The event loop is [step]: one event is handled to completion, the
      queued hook updates are applied, and the component is rendered again
      before the next event is taken (React's synchronous update mode).
    - An [async] function is a task that is suspended at each [await] and
      resumed by the event that settles the awaited promise. *)

From stdpp Require Import base strings list gmap.
From Stdlib Require Import ZArith.

Local Open Scope string_scope.
Local Open Scope list_scope.

(** ** Data *)

(** [type Room]; the component only ever produces the labels ['blue'] and
    ['red'], at run time they are strings. *)
Abbreviation Room := string.

(** Modelled from the spec: the interface [IUser] ([src/interfaces/IUser]
    is not among the sources).  The presence query returns
    [{onlineUsers: [{id, username, room}, ...]}], and the component reads
    exactly these three fields. *)
Module IUser.
Record t := mk { id : string; username : string; room : Room }.
End IUser.

(** [IMessage], with the four fields of the object literal built in
    [handleMessageSubmit].  [socket.id] is undefined until the transport
    is connected, hence the option. *)
Module IMessage.
Record t := mk {
  text : string;
  sender : string;
  socketId : option string;
  timestamp : Z
}.
End IMessage.

(** The hooks of [Home] (lines 29-33 and 145). *)
Record HomeState := mkHome {
  username : string;
  message : string;
  loggedIn : bool;
  onlineUsers : list IUser.t;
  chatHistory : list IMessage.t;
  room : Room
}.

(** The [useState] initial values. *)
Definition initialState : HomeState :=
  {| username := ""; message := ""; loggedIn := false;
     onlineUsers := []; chatHistory := []; room := "blue" |}.

(** ** The network *)

Definition ADDRESS : string := "http://localhost:3030".

(** The parsed body [data : { onlineUsers: IUser[] }]. *)
Module Data.
Record t := mk { onlineUsers : list IUser.t }.
End Data.

(** What [fetch] resolves to: any HTTP response, whatever its status.
    [body] is the result [response.json()] will give: [None] when the body
    is not JSON and the promise rejects. *)
Record Response := mkResponse {
  status : Z;
  body : option Data.t
}.

(** [response.ok], which the component never reads. *)
Definition ok (response : Response) : bool :=
  bool_decide (200 ≤ status response < 300)%Z.

(** JavaScript truthiness of a [Response]: every object is truthy. *)
Definition truthy (response : Response) : bool := true.

Inductive Error :=
| NetworkError   (* [fetch] rejected *)
| SyntaxError.   (* [response.json()] rejected *)

Inductive LogEntry :=
| LogText (s : string)
| LogError (e : Error).

(** Payloads of the events the client emits. *)
Inductive Payload :=
| UsernamePayload (username : string) (room : Room)      (* { username, room } *)
| MessagePayload (message : IMessage.t) (room : Room).   (* { message, room } *)

(** Events the server sends over the socket. *)
Inductive ServerEvent :=
| connect (sid : string)   (* the transport is up; the library sets [socket.id] *)
| loggedin
| newConnection
| message_ (newMessage : IMessage.t).

Definition event_name (e : ServerEvent) : string :=
  match e with
  | connect _ => "connect"
  | loggedin => "loggedin"
  | newConnection => "newConnection"
  | message_ _ => "message"
  end.

(** ** Closures and effects *)

(** The four arrow functions passed to [socket.on]. *)
Inductive ListenerCode := onConnect | onLoggedin | onNewConnection | onMessage.

(** A listener is a closure: its code and the scope it was created in. *)
Record Listener := mkListener {
  code : ListenerCode;
  scope : HomeState
}.

Inductive Cmd :=
| ConsoleLog (l : LogEntry)
| PreventDefault
| SetUsername (v : string)
| SetMessage (v : string)
| SetLoggedIn (v : bool)
| SetOnlineUsers (v : list IUser.t)
| SetChatHistory (v : list IMessage.t)                          (* setter called with a value *)
| SetChatHistoryWith (f : list IMessage.t → list IMessage.t)    (* setter called with an updater *)
| SetRoom (v : Room)
| SocketOn (name : string) (l : Listener)
| SocketEmit (name : string) (p : Payload)
| FetchOnlineUsers.                                             (* fetchOnlineUsers() *)

(** The listeners' bodies (lines 51-96). *)
Definition listener_body (l : Listener) (e : ServerEvent) : list Cmd :=
  match code l with
  | onConnect =>
      [ConsoleLog (LogText "Connection established!")]
  | onLoggedin =>
      [ConsoleLog (LogText "you're logged in!");
       SetLoggedIn true;
       FetchOnlineUsers;
       SocketOn "newConnection" {| code := onNewConnection; scope := scope l |}]
  | onNewConnection =>
      [ConsoleLog (LogText "watch out! a new challenger appears!");
       FetchOnlineUsers]
  | onMessage =>
      match e with
      | message_ newMessage =>
          [ConsoleLog (LogText "a new message appeared!");
           SetChatHistoryWith (λ chatHistory, chatHistory ++ [newMessage])]
      | _ => []
      end
  end.

(** The effect of [useEffect(..., [])] (lines 44-97), run once with the
    scope of the first render. *)
Definition useEffect (sc : HomeState) : list Cmd :=
  [SocketOn "connect" {| code := onConnect; scope := sc |};
   SocketOn "loggedin" {| code := onLoggedin; scope := sc |};
   SocketOn "message" {| code := onMessage; scope := sc |}].

(** [handleUsernameSubmit] (lines 99-106). *)
Definition handleUsernameSubmit (sc : HomeState) : list Cmd :=
  [PreventDefault;
   SocketEmit "setUsername" (UsernamePayload (username sc) (room sc))].

(** [handleMessageSubmit] (lines 108-128); [socket_id] is [socket.id] and
    [now] is [Date.now()] at the time of the call. *)
Definition handleMessageSubmit (sc : HomeState) (socket_id : option string)
    (now : Z) : list Cmd :=
  let newMessage :=
    {| IMessage.text := message sc;
       IMessage.sender := username sc;
       IMessage.socketId := socket_id;
       IMessage.timestamp := now |} in
  [PreventDefault;
   SocketEmit "sendmessage" (MessagePayload newMessage (room sc));
   SetChatHistory (chatHistory sc ++ [newMessage]);
   SetMessage ""].

(** The [onClick] of the Room button (line 164). *)
Definition toggleRoom (sc : HomeState) : list Cmd :=
  [SetRoom (if decide (room sc = "blue") then "red" else "blue")].

(** [fetchOnlineUsers] (lines 130-143), cut at its two [await]s. *)
Inductive Task :=
| AwaitFetch                         (* suspended at [await fetch(...)] *)
| AwaitJson (response : Response).   (* suspended at [await response.json()] *)

Definition fetchOnlineUsers_url : string := ADDRESS +:+ "/online-users".

(** Resumption after [await fetch(...)]: [None] is a rejection, caught by
    the [catch] block.  Returns the effects and the next suspension. *)
Definition fetchOnlineUsers_fetched (r : option Response) : list Cmd * option Task :=
  match r with
  | Some response =>
      if truthy response then ([], Some (AwaitJson response))
      else ([ConsoleLog (LogText "error fetching the online users")], None)
  | None => ([ConsoleLog (LogError NetworkError)], None)
  end.

(** Resumption after [await response.json()]. *)
Definition fetchOnlineUsers_parsed (response : Response) : list Cmd :=
  match body response with
  | Some data => [SetOnlineUsers (Data.onlineUsers data)]
  | None => [ConsoleLog (LogError SyntaxError)]
  end.

(** ** The rendered view *)

Inductive Item :=
| NoUsersYet                                (* <ListGroupItem>No users yet!</ListGroupItem> *)
| UserItem (key : string) (label : string). (* <ListGroupItem key={user.id}>{user.username}</ListGroupItem> *)

Record View := mkView {
  usernameValue : string;
  usernameDisabled : bool;
  roomVariant : string;
  historyItems : list (nat * IMessage.t);
  messageValue : string;
  messageDisabled : bool;
  connectedUsers : list Item
}.

(** The JSX returned by [Home] (lines 147-202). *)
Definition render (s : HomeState) : View :=
  {| usernameValue := username s;
     usernameDisabled := loggedIn s;
     roomVariant := if decide (room s = "blue") then "primary" else "danger";
     historyItems := imap (λ i message, (i, message)) (chatHistory s);
     messageValue := message s;
     messageDisabled := negb (loggedIn s);
     connectedUsers :=
       (if decide (length (onlineUsers s) = 0) then [NoUsersYet] else []) ++
       ((λ user, UserItem (IUser.id user) (IUser.username user)) <$>
          filter (λ user, IUser.room user = room s) (onlineUsers s)) |}.

(** ** The world: component, socket, console and network *)

Record World := mkWorld {
  state : HomeState;                      (* current hook values *)
  rendered : HomeState;                   (* scope of the committed render *)
  socket_id : option string;              (* socket.id *)
  listeners : list (string * Listener);   (* socket.on registrations, in order *)
  emitted : list (string * Payload);      (* socket.emit calls, in order *)
  console : list LogEntry;
  fetches : list string;                  (* URLs requested, in order *)
  tasks : gmap nat Task                   (* suspended fetchOnlineUsers calls *)
}.

Definition set_state (f : HomeState → HomeState) (w : World) : World :=
  mkWorld (f (state w)) (rendered w) (socket_id w) (listeners w) (emitted w)
          (console w) (fetches w) (tasks w).

Definition set_tasks (f : gmap nat Task → gmap nat Task) (w : World) : World :=
  mkWorld (state w) (rendered w) (socket_id w) (listeners w) (emitted w)
          (console w) (fetches w) (f (tasks w)).

(** One effect.  The [n]-th call of [fetchOnlineUsers] (counting from 0)
    issues its request and is suspended as task [n]. *)
Definition exec (w : World) (c : Cmd) : World :=
  match c with
  | ConsoleLog l =>
      mkWorld (state w) (rendered w) (socket_id w) (listeners w) (emitted w)
              (console w ++ [l]) (fetches w) (tasks w)
  | PreventDefault => w
  | SetUsername v =>
      set_state (λ s, mkHome v (message s) (loggedIn s) (onlineUsers s) (chatHistory s) (room s)) w
  | SetMessage v =>
      set_state (λ s, mkHome (username s) v (loggedIn s) (onlineUsers s) (chatHistory s) (room s)) w
  | SetLoggedIn v =>
      set_state (λ s, mkHome (username s) (message s) v (onlineUsers s) (chatHistory s) (room s)) w
  | SetOnlineUsers v =>
      set_state (λ s, mkHome (username s) (message s) (loggedIn s) v (chatHistory s) (room s)) w
  | SetChatHistory v =>
      set_state (λ s, mkHome (username s) (message s) (loggedIn s) (onlineUsers s) v (room s)) w
  | SetChatHistoryWith f =>
      set_state (λ s, mkHome (username s) (message s) (loggedIn s) (onlineUsers s)
                             (f (chatHistory s)) (room s)) w
  | SetRoom v =>
      set_state (λ s, mkHome (username s) (message s) (loggedIn s) (onlineUsers s) (chatHistory s) v) w
  | SocketOn name l =>
      mkWorld (state w) (rendered w) (socket_id w) (listeners w ++ [(name, l)])
              (emitted w) (console w) (fetches w) (tasks w)
  | SocketEmit name p =>
      mkWorld (state w) (rendered w) (socket_id w) (listeners w)
              (emitted w ++ [(name, p)]) (console w) (fetches w) (tasks w)
  | FetchOnlineUsers =>
      mkWorld (state w) (rendered w) (socket_id w) (listeners w) (emitted w)
              (console w) (fetches w ++ [fetchOnlineUsers_url])
              (<[length (fetches w) := AwaitFetch]> (tasks w))
  end.

Definition exec_all (w : World) (cs : list Cmd) : World := foldl exec w cs.

(** ** Events *)

(** What the user can do with the rendered page. *)
Inductive UserEvent :=
| ChangeUsername (v : string)   (* typing in the username input *)
| SubmitUsername                (* Enter in the username input *)
| ClickRoom                     (* clicking the Room button *)
| ChangeMessage (v : string)    (* typing in the message input *)
| SubmitMessage (now : Z).      (* Enter in the message input, at time [now] *)

Inductive Event :=
| User (u : UserEvent)
| Server (e : ServerEvent)
| FetchSettled (k : nat) (r : option Response)   (* the [fetch] promise of task [k] settles *)
| JsonSettled (k : nat).                         (* the [json()] promise of task [k] settles *)

(** The browser: a disabled input takes neither keystrokes nor the Enter
    key that submits its form; the Room button is a plain button (a
    click runs its [onClick] and does not submit the form) and has no
    [disabled] attribute.  Handlers are those of the committed render. *)
Definition user_cmds (w : World) (u : UserEvent) : list Cmd :=
  let sc := rendered w in
  match u with
  | ChangeUsername v =>
      if usernameDisabled (render sc) then [] else [SetUsername v]
  | SubmitUsername =>
      if usernameDisabled (render sc) then [] else handleUsernameSubmit sc
  | ClickRoom => toggleRoom sc
  | ChangeMessage v =>
      if messageDisabled (render sc) then [] else [SetMessage v]
  | SubmitMessage now =>
      if messageDisabled (render sc) then []
      else handleMessageSubmit sc (socket_id w) now
  end.

(** The socket: the listeners registered under the event's name when it
    arrives are called in registration order. *)
Definition server_cmds (w : World) (e : ServerEvent) : list Cmd :=
  (filter (λ nl, nl.1 = event_name e) (listeners w)) ≫= (λ nl, listener_body nl.2 e).

Definition set_socket_id (e : ServerEvent) (w : World) : World :=
  match e with
  | connect sid =>
      mkWorld (state w) (rendered w) (Some sid) (listeners w) (emitted w)
              (console w) (fetches w) (tasks w)
  | _ => w
  end.

Definition handle (w : World) (e : Event) : World :=
  match e with
  | User u => exec_all w (user_cmds w u)
  | Server e => let w := set_socket_id e w in exec_all w (server_cmds w e)
  | FetchSettled k r =>
      match tasks w !! k with
      | Some AwaitFetch =>
          let '(cs, next) := fetchOnlineUsers_fetched r in
          set_tasks (λ ts, match next with
                           | Some t => <[k := t]> ts
                           | None => delete k ts
                           end) (exec_all w cs)
      | _ => w
      end
  | JsonSettled k =>
      match tasks w !! k with
      | Some (AwaitJson response) =>
          set_tasks (delete k) (exec_all w (fetchOnlineUsers_parsed response))
      | _ => w
      end
  end.

(** Re-render: the handlers of the page now close over the current hooks. *)
Definition commit (w : World) : World :=
  mkWorld (state w) (state w) (socket_id w) (listeners w) (emitted w)
          (console w) (fetches w) (tasks w).

Definition step (w : World) (e : Event) : World := commit (handle w e).

(** The first render and its effect. *)
Definition mount : World :=
  let w := mkWorld initialState initialState None [] [] [] [] ∅ in
  commit (exec_all w (useEffect (rendered w))).

Definition run (w : World) (tr : list Event) : World := foldl step w tr.

(** ** Decidable equality of events *)

#[global] Instance IUser_eq_dec : EqDecision IUser.t.
Proof. solve_decision. Defined.
#[global] Instance IMessage_eq_dec : EqDecision IMessage.t.
Proof. solve_decision. Defined.
#[global] Instance Data_eq_dec : EqDecision Data.t.
Proof. solve_decision. Defined.
#[global] Instance Response_eq_dec : EqDecision Response.
Proof. solve_decision. Defined.
#[global] Instance ServerEvent_eq_dec : EqDecision ServerEvent.
Proof. solve_decision. Defined.
#[global] Instance UserEvent_eq_dec : EqDecision UserEvent.
Proof. solve_decision. Defined.
#[global] Instance Event_eq_dec : EqDecision Event.
Proof. solve_decision. Defined.

(** ** Observations on traces *)

(** How many ['loggedin'] events a trace delivers. *)
Definition logins (tr : list Event) : nat :=
  length (filter (λ e, e = Server loggedin) tr).

(** The messages a trace delivers, in order of receipt. *)
Definition received (tr : list Event) : list IMessage.t :=
  omap (λ e, match e with Server (message_ m) => Some m | _ => None end) tr.

(** The snapshot a completing presence query hands over: event [e] in
    world [w] settles the [json()] promise of a task whose response body
    parses. *)
Definition delivered (w : World) (e : Event) : option (list IUser.t) :=
  match e with
  | JsonSettled k =>
      match tasks w !! k with
      | Some (AwaitJson response) => Data.onlineUsers <$> body response
      | _ => None
      end
  | _ => None
  end.

(** The snapshot of the query that completed last in [tr], started in
    [w]; [last0] when none completed. *)
Fixpoint last_delivered (w : World) (last0 : list IUser.t) (tr : list Event)
    : list IUser.t :=
  match tr with
  | [] => last0
  | e :: tr => last_delivered (step w e) (default last0 (delivered w e)) tr
  end.

(** The listener every ['loggedin'] adds. *)
Definition newConnection_listener : string * Listener :=
  ("newConnection", {| code := onNewConnection; scope := initialState |}).

(** ** Basic facts about the event loop *)

Lemma run_snoc w tr e : run w (tr ++ [e]) = step (run w tr) e.
Proof. unfold run. by rewrite foldl_app. Qed.

Lemma run_app w tr1 tr2 : run w (tr1 ++ tr2) = run (run w tr1) tr2.
Proof. unfold run. by rewrite foldl_app. Qed.

Lemma logins_snoc tr e :
  logins (tr ++ [e]) = logins tr + (if decide (e = Server loggedin) then 1 else 0).
Proof.
  unfold logins. rewrite filter_app, length_app. f_equal.
  rewrite filter_cons, filter_nil. by case_decide.
Qed.

Lemma filter_replicate {A} (P : A → Prop) `{!∀ x, Decision (P x)} n (x : A) :
  filter P (replicate n x) = if decide (P x) then replicate n x else [].
Proof.
  induction n as [|n IH]; simpl.
  - by case_decide.
  - rewrite filter_cons, IH. by case_decide.
Qed.

(** The listeners called for each event, when the registrations are those
    of the mount effect followed by [n] ['newConnection'] listeners. *)
Section dispatch.
Variables (w : World) (n : nat).
Hypothesis Hls : listeners w = listeners mount ++ replicate n newConnection_listener.

Lemma server_cmds_connect sid :
  server_cmds w (connect sid) = [ConsoleLog (LogText "Connection established!")].
Proof.
  unfold server_cmds. rewrite Hls, filter_app, filter_replicate.
  by rewrite decide_False by done.
Qed.

Lemma server_cmds_loggedin :
  server_cmds w loggedin =
    [ConsoleLog (LogText "you're logged in!"); SetLoggedIn true; FetchOnlineUsers;
     SocketOn "newConnection" newConnection_listener.2].
Proof.
  unfold server_cmds. rewrite Hls, filter_app, filter_replicate.
  by rewrite decide_False by done.
Qed.

Lemma server_cmds_message m :
  server_cmds w (message_ m) =
    [ConsoleLog (LogText "a new message appeared!");
     SetChatHistoryWith (λ chatHistory, chatHistory ++ [m])].
Proof.
  unfold server_cmds. rewrite Hls, filter_app, filter_replicate.
  by rewrite decide_False by done.
Qed.

Lemma server_cmds_newConnection :
  server_cmds w newConnection =
    replicate n newConnection_listener ≫= (λ nl, listener_body nl.2 newConnection).
Proof.
  unfold server_cmds. rewrite Hls, filter_app, filter_replicate.
  by rewrite decide_True by done.
Qed.
End dispatch.

(** Running [n] copies of the ['newConnection'] listener: one log line and
    one presence query each, nothing else. *)
Lemma exec_newConnection_listeners n w :
  let w' := exec_all w (replicate n newConnection_listener ≫=
                          (λ nl, listener_body nl.2 newConnection)) in
  state w' = state w ∧ rendered w' = rendered w ∧ socket_id w' = socket_id w ∧
  listeners w' = listeners w ∧ emitted w' = emitted w ∧
  fetches w' = fetches w ++ replicate n fetchOnlineUsers_url ∧
  (n = 0 → w' = w).
Proof.
  revert w. induction n as [|n IH]; intros w.
  - simpl. rewrite app_nil_r. by destruct w.
  - cbn [replicate]. rewrite bind_cons. unfold exec_all in *. rewrite foldl_app.
    match goal with |- context [foldl exec (foldl exec w ?cs)] =>
      specialize (IH (foldl exec w cs)) end.
    cbv zeta in IH. destruct IH as (Hs & Hr & Hi & Hl & He & Hf & _).
    cbv zeta. rewrite Hs, Hr, Hi, Hl, He, Hf. simpl.
    rewrite <- app_assoc. simpl. repeat split; done.
Qed.

(** ** Invariants of the reachable worlds *)

Record Inv (n : nat) (w : World) : Prop := {
  inv_rendered : rendered w = state w;
  inv_listeners : listeners w = listeners mount ++ replicate n newConnection_listener;
  inv_loggedIn : loggedIn (state w) = bool_decide (0 < n);
  inv_room : room (state w) = "blue" ∨ room (state w) = "red";
  inv_emitted : loggedIn (state w) = false → ∀ ev, ev ∈ emitted w → ev.1 = "setUsername"
}.

Lemma mount_inv : Inv 0 mount.
Proof.
  split; simpl; try done.
  - by left.
  - intros _ ev Hev. by apply elem_of_nil in Hev.
Qed.

Lemma step_inv n w e :
  Inv n w →
  Inv (n + (if decide (e = Server loggedin) then 1 else 0)) (step w e).
Proof.
  intros [Hr Hl Hlog Hroom Hem].
  destruct e as [u|e|k r|k].
  - rewrite decide_False, Nat.add_0_r by done.
    unfold step, handle, user_cmds. rewrite Hr. simpl.
    destruct u; simpl; destruct (loggedIn (state w)) eqn:Hli; simpl;
      split; simpl; rewrite ?Hli; try done;
      try (destruct (decide (room (state w) = "blue")); [by right|by left]).
    intros _ ev [Hev|Hev]%elem_of_app; [by apply Hem|].
    by apply list_elem_of_singleton in Hev as ->.
  - unfold step, handle. destruct e as [sid| | |m].
    + rewrite decide_False, Nat.add_0_r by done.
      rewrite (server_cmds_connect _ n) by done. split; simpl; done.
    + rewrite decide_True by done.
      rewrite (server_cmds_loggedin _ n) by done. split; simpl; try done.
      * rewrite Hl, <- app_assoc. f_equal.
        by rewrite Nat.add_1_r, replicate_S_end.
      * symmetry. apply bool_decide_eq_true. lia.
    + rewrite decide_False, Nat.add_0_r by done.
      rewrite (server_cmds_newConnection _ n) by done. simpl.
      destruct (exec_newConnection_listeners n w) as (Hs & _ & _ & Hls & He & _).
      split; simpl; rewrite ?Hs, ?Hls, ?He; done.
    + rewrite decide_False, Nat.add_0_r by done.
      rewrite (server_cmds_message _ n) by done. split; simpl; done.
  - rewrite decide_False, Nat.add_0_r by done.
    unfold step, handle. destruct (tasks w !! k) as [[|response]|]; [|by split..].
    destruct r as [response|]; split; simpl; done.
  - rewrite decide_False, Nat.add_0_r by done.
    unfold step, handle. destruct (tasks w !! k) as [[|response]|]; [by split| |by split].
    unfold fetchOnlineUsers_parsed. destruct (body response); split; simpl; done.
Qed.

Lemma run_inv tr : Inv (logins tr) (run mount tr).
Proof.
  induction tr as [|e tr IH] using rev_ind.
  - apply mount_inv.
  - rewrite run_snoc, logins_snoc. by apply step_inv.
Qed.

(** ** What one event does to the hooks *)

(** Case analysis on the event handled in a world that satisfies [Inv]:
    a user event (handlers read the committed scope, which is the current
    state), each of the four server events (with the listeners called
    made explicit), and the two settlements, by the state of the task.
    For ['newConnection'] the effect of the listeners is put in the
    context. *)
Ltac event_cases Hinv e :=
  let Hr := fresh "Hr" in
  let Hl := fresh "Hl" in
  destruct Hinv as [Hr Hl ? ? ?];
  destruct e as [u|[sid| | |m]|k r|k];
  unfold step, handle; cbv zeta; cbn [set_socket_id];
  [ unfold user_cmds; rewrite Hr; destruct u
  | erewrite server_cmds_connect by exact Hl
  | erewrite server_cmds_loggedin by exact Hl
  | erewrite server_cmds_newConnection by exact Hl;
    match goal with
    | |- context [exec_all ?w (replicate ?n _ ≫= _)] =>
        destruct (exec_newConnection_listeners n w) as (? & ? & ? & ? & ? & ? & ?)
    end
  | erewrite server_cmds_message by exact Hl
  | destruct (tasks _ !! k) as [[|response]|]; [destruct r as [response|]| |]
  | destruct (tasks _ !! k) as [[|response]|];
    [|unfold fetchOnlineUsers_parsed; destruct (body response) as [data|]|] ].

(** The chat history only grows at its end; a received message adds
    exactly itself. *)
Lemma step_chatHistory n w e :
  Inv n w →
  ∃ l, chatHistory (state (step w e)) = chatHistory (state w) ++ l ∧
       ∀ m, e = Server (message_ m) → l = [m].
Proof.
  intros Hinv. event_cases Hinv e; simpl;
    try (exists [m]; split; [done|]; by intros ? [= ->]);
    try destruct (loggedIn (state w)); simpl;
    first [ by eexists; split; [done|]
          | exists []; rewrite app_nil_r; split; [congruence|done] ].
Qed.

(** Only a completing presence query writes the online-user list, and it
    overwrites it with its snapshot. *)
Lemma step_onlineUsers n w e :
  Inv n w →
  onlineUsers (state (step w e)) = default (onlineUsers (state w)) (delivered w e).
Proof.
  intros Hinv. unfold delivered.
  event_cases Hinv e; simpl; try destruct (loggedIn (state w)); simpl; congruence.
Qed.

(** The room changes only by a click on the Room button. *)
Lemma step_room n w e :
  Inv n w →
  room (state (step w e)) =
    if decide (e = User ClickRoom)
    then (if decide (room (state w) = "blue") then "red" else "blue")
    else room (state w).
Proof.
  intros Hinv.
  event_cases Hinv e; simpl; try destruct (loggedIn (state w)); simpl; congruence.
Qed.

Lemma run_onlineUsers tr1 tr2 :
  onlineUsers (state (run (run mount tr1) tr2)) =
    last_delivered (run mount tr1) (onlineUsers (state (run mount tr1))) tr2.
Proof.
  revert tr1. induction tr2 as [|e tr2 IH]; intros tr1; [done|].
  cbn [last_delivered]. change (run ?w (e :: tr2)) with (run (step w e) tr2).
  rewrite <- run_snoc, IH, run_snoc.
  by rewrite (step_onlineUsers _ _ _ (run_inv tr1)).
Qed.

Lemma onlineUsers_last_delivered tr :
  onlineUsers (state (run mount tr)) = last_delivered mount [] tr.
Proof. apply (run_onlineUsers [] tr). Qed.

Lemma received_snoc tr e :
  received (tr ++ [e]) =
    received tr ++ match e with Server (message_ m) => [m] | _ => [] end.
Proof.
  unfold received. rewrite omap_app. f_equal.
  by destruct e as [|[]| |].
Qed.

(** * The claims *)

(** ** Chat history *)

(** C1.  Whenever a ['message'] event arrives, in whatever world the
    client has reached, the received message is appended to the end of the
    history as it is at that moment; so a run of received messages extends
    the history by exactly that run, and at any time the history holds
    every message received so far, in order of receipt, whatever other
    events came in between. *)
Theorem message_appends_to_current_history (tr : list Event) :
  let w := run mount tr in
  (∀ m, chatHistory (state (step w (Server (message_ m)))) =
          chatHistory (state w) ++ [m]) ∧
  (∀ ms, chatHistory (state (run w ((λ m, Server (message_ m)) <$> ms))) =
           chatHistory (state w) ++ ms) ∧
  received tr `sublist_of` chatHistory (state w).
Proof.
  assert (Hone : ∀ tr m,
    chatHistory (state (step (run mount tr) (Server (message_ m)))) =
      chatHistory (state (run mount tr)) ++ [m]).
  { intros tr' m.
    destruct (step_chatHistory _ _ (Server (message_ m)) (run_inv tr')) as (l & -> & Hl).
    by rewrite (Hl m). }
  cbv zeta. split; [apply Hone|]. split.
  - intros ms. induction ms as [|m ms IH] using rev_ind.
    + by rewrite app_nil_r.
    + rewrite fmap_app, run_app. cbn [fmap list_fmap run foldl].
      rewrite <- run_app, Hone, run_app.
      fold (run (run mount tr) ((λ m, Server (message_ m)) <$> ms)).
      by rewrite IH, app_assoc.
  - induction tr as [|e tr IH] using rev_ind; [done|].
    rewrite received_snoc, run_snoc.
    destruct (step_chatHistory _ _ e (run_inv tr)) as (l & -> & Hl).
    apply sublist_app; [done|].
    destruct e as [|[| | |m]| |]; try apply sublist_nil_l.
    by rewrite (Hl m).
Qed.

(** The alternative the comment on line 92 warns about: the setter called
    with a value built from the history in the listener's own scope. *)
Definition onMessage_captured (l : Listener) (newMessage : IMessage.t) : list Cmd :=
  [ConsoleLog (LogText "a new message appeared!");
   SetChatHistory (chatHistory (scope l) ++ [newMessage])].

(** With it the second message received overwrites the first. *)
Lemma onMessage_captured_loses_history (m1 m2 : IMessage.t) :
  let l := {| code := onMessage; scope := initialState |} in
  chatHistory (state (exec_all (commit (exec_all mount (onMessage_captured l m1)))
                               (onMessage_captured l m2))) = [m2].
Proof. reflexivity. Qed.

(** C2.  When the logged-in user submits the message form at time [now],
    the message built from the draft text, the username, [socket.id] and
    [now] is appended once to the local history in that same step, one
    ['sendmessage'] event carrying that message and the current room is
    emitted, and the draft is cleared. *)
Theorem message_submit_echoes_and_emits (tr : list Event) (now : Z) :
  let w := run mount tr in
  loggedIn (state w) = true →
  let newMessage :=
    {| IMessage.text := message (state w); IMessage.sender := username (state w);
       IMessage.socketId := socket_id w; IMessage.timestamp := now |} in
  let w' := step w (User (SubmitMessage now)) in
  chatHistory (state w') = chatHistory (state w) ++ [newMessage] ∧
  emitted w' = emitted w ++ [("sendmessage", MessagePayload newMessage (room (state w)))] ∧
  message (state w') = "" ∧
  fetches w' = fetches w ∧ tasks w' = tasks w.
Proof.
  cbv zeta. intros Hli.
  unfold step, handle, user_cmds.
  rewrite (inv_rendered _ _ (run_inv tr)). simpl. rewrite Hli. simpl.
  done.
Qed.

Definition alice : IUser.t := IUser.mk "c1" "alice" "blue".
Definition bob : IUser.t := IUser.mk "c2" "bob" "red".

(** A session: connect, identify as alice, get logged in, receive the
    presence snapshot, draft a message. *)
Definition session : list Event :=
  [Server (connect "c1"); User (ChangeUsername "alice"); User SubmitUsername;
   Server loggedin;
   FetchSettled 0 (Some (mkResponse 200 (Some (Data.mk [alice; bob]))));
   JsonSettled 0;
   User (ChangeMessage "hi")].

Lemma message_submit_echoes_and_emits_witness :
  let hi := IMessage.mk "hi" "alice" (Some "c1") 1000 in
  let w' := step (run mount session) (User (SubmitMessage 1000)) in
  chatHistory (state w') = [hi] ∧
  emitted w' = [("setUsername", UsernamePayload "alice" "blue");
                ("sendmessage", MessagePayload hi "blue")] ∧
  message (state w') = "" ∧
  fetches w' = fetches (run mount session) ∧ tasks w' = tasks (run mount session).
Proof. apply (message_submit_echoes_and_emits session 1000). reflexivity. Defined.

(** ** Identity *)

(** Submitting the username form in world [w] emits one event called
    [name] with the current username and room, and changes nothing else. *)
Definition username_submit_emits (name : string) (w : World) : Prop :=
  step w (User SubmitUsername) =
    mkWorld (state w) (state w) (socket_id w) (listeners w)
            (emitted w ++ [(name, UsernamePayload (username (state w)) (room (state w)))])
            (console w) (fetches w) (tasks w).

(** C3 as stated: the submit emits the one identity event (the spec's
    [setIdentity], on the wire ['setUsername']) and from then on, until
    the ['loggedin'] reply arrives, further identity input is suppressed:
    the username input no longer takes input. *)
Definition username_submit_suppresses_input (w : World) : Prop :=
  let w' := step w (User SubmitUsername) in
  username_submit_emits "setUsername" w ∧
  usernameDisabled (render (rendered w')) = true.

(** It fails: after the submit, with no ['loggedin'] received yet, the
    username input is still enabled. *)
Lemma username_submit_leaves_input_enabled :
  ¬ username_submit_suppresses_input (run mount [User (ChangeUsername "alice")]).
Proof. intros [_ H]. vm_compute in H. discriminate H. Qed.

(** So the identity can be typed and submitted again while the reply is
    awaited. *)
Example username_resubmitted_before_reply :
  emitted (run mount [User (ChangeUsername "alice"); User SubmitUsername;
                      User (ChangeUsername "mallory"); User ClickRoom;
                      User SubmitUsername]) =
    [("setUsername", UsernamePayload "alice" "blue");
     ("setUsername", UsernamePayload "mallory" "red")].
Proof. reflexivity. Qed.

(** C3, amended.  The username input is disabled exactly when a
    ['loggedin'] has been received.  While it is enabled, each submit of
    the username form emits exactly one identity event (the spec's
    [setIdentity], on the wire ['setUsername']) with payload
    [{username, room}] taken from the current hooks, and changes no local
    state at all: the submit does not suppress further identity input,
    the input stays enabled until the reply arrives. *)
Theorem username_submit_emits_setUsername (tr : list Event) :
  let w := run mount tr in
  usernameDisabled (render (rendered w)) = bool_decide (0 < logins tr) ∧
  (usernameDisabled (render (rendered w)) = false →
   username_submit_emits "setUsername" w ∧
   usernameDisabled (render (rendered (step w (User SubmitUsername)))) = false).
Proof.
  cbv zeta. pose proof (run_inv tr) as [Hr Hl Hlog Hroom Hem].
  unfold username_submit_emits, step, handle, user_cmds. rewrite Hr. simpl.
  split; [done|]. intros Hli. rewrite Hli. simpl. by rewrite Hli.
Qed.

Lemma username_submit_emits_setUsername_witness :
  username_submit_emits "setUsername" (run mount [User (ChangeUsername "alice")]) ∧
  usernameDisabled (render (rendered (step (run mount [User (ChangeUsername "alice")])
                                           (User SubmitUsername)))) = false.
Proof.
  apply (username_submit_emits_setUsername [User (ChangeUsername "alice")]).
  reflexivity.
Defined.

(** C4.  In every reachable world a ['loggedin'] event sets the logged-in
    flag and starts exactly one presence query, a GET of
    [ADDRESS/online-users], suspended until its response arrives; the
    online-user list itself is not touched yet. *)
Theorem loggedin_authenticates_and_queries (tr : list Event) :
  let w := run mount tr in
  let w' := step w (Server loggedin) in
  loggedIn (state w') = true ∧
  fetches w' = fetches w ++ ["http://localhost:3030/online-users"] ∧
  tasks w' = <[length (fetches w) := AwaitFetch]> (tasks w) ∧
  onlineUsers (state w') = onlineUsers (state w).
Proof.
  unfold step, handle. cbv zeta. cbn [set_socket_id].
  by rewrite (server_cmds_loggedin _ _ (inv_listeners _ _ (run_inv tr))).
Qed.

(** C5.  The client is logged in exactly when it has received a
    ['loggedin']; a ['newConnection'] signal that arrives before leaves
    the world as it is, and one that arrives after starts a presence query
    (one per ['loggedin'] received, since each registers a listener)
    without reading or changing any hook: the current list is neither
    inspected nor diffed. *)
Theorem newConnection_refetches_when_logged_in (tr : list Event) :
  let w := run mount tr in
  let w' := step w (Server newConnection) in
  loggedIn (state w) = bool_decide (0 < logins tr) ∧
  (loggedIn (state w) = false → w' = w) ∧
  state w' = state w ∧
  fetches w' = fetches w ++ replicate (logins tr) fetchOnlineUsers_url.
Proof.
  cbv zeta. pose proof (run_inv tr) as [Hr Hl Hlog Hroom Hem].
  unfold step, handle. cbv zeta. cbn [set_socket_id].
  rewrite (server_cmds_newConnection _ _ Hl).
  destruct (exec_newConnection_listeners (logins tr) (run mount tr))
    as (Hs & Hr' & Hi & Hls & He & Hf & H0).
  repeat split; [done| |done..].
  rewrite Hlog. intros Hn%bool_decide_eq_false.
  assert (logins tr = 0) as Hz by lia.
  cbv zeta in H0. rewrite (H0 Hz).
  destruct (run mount tr); simpl in *; by subst.
Qed.

(** ** Presence *)

(** Scenario 5: two signals start queries 1 and 2 before either resolves;
    whichever completes last decides the list. *)
Definition two_queries : list Event :=
  session ++ [Server newConnection; Server newConnection;
              FetchSettled 1 (Some (mkResponse 200 (Some (Data.mk [alice]))));
              FetchSettled 2 (Some (mkResponse 200 (Some (Data.mk [alice; bob]))))].

Example overlapping_queries_in_order :
  onlineUsers (state (run mount (two_queries ++ [JsonSettled 1; JsonSettled 2]))) = [alice; bob].
Proof. reflexivity. Qed.

Example overlapping_queries_out_of_order :
  onlineUsers (state (run mount (two_queries ++ [JsonSettled 2; JsonSettled 1]))) = [alice].
Proof. reflexivity. Qed.

(** The usernames shown in the connected-users column. *)
Definition label (i : Item) : option string :=
  match i with
  | UserItem _ l => Some l
  | NoUsersYet => None
  end.

(** C8.  The user entries of the connected-users column are those of the
    last fetched snapshot whose room is the currently selected room: one
    entry per such participant, keyed by id and labelled by username, in
    snapshot order, and no entry for a participant of another room. *)
Theorem connected_users_are_room_filtered (tr : list Event) :
  let w := run mount tr in
  let snapshot := last_delivered mount [] tr in
  let view := connectedUsers (render (rendered w)) in
  (∀ key l, UserItem key l ∈ view ↔
     ∃ user, user ∈ snapshot ∧ IUser.room user = room (state w) ∧
             key = IUser.id user ∧ l = IUser.username user) ∧
  omap label view =
    IUser.username <$> filter (λ user, IUser.room user = room (state w)) snapshot.
Proof.
  cbv zeta. rewrite <- onlineUsers_last_delivered.
  rewrite (inv_rendered _ _ (run_inv tr)).
  set (s := state (run mount tr)). unfold render; cbn [connectedUsers]. split.
  - intros key l. rewrite elem_of_app, list_elem_of_fmap. split.
    + intros [H|(user & [= -> ->] & [Hroom Hin]%list_elem_of_filter)].
      * case_decide; [|by apply elem_of_nil in H].
        apply list_elem_of_singleton in H. discriminate.
      * by exists user.
    + intros (user & Hin & Hroom & -> & ->). right. exists user.
      split; [done|]. by apply list_elem_of_filter.
  - rewrite omap_app.
    replace (omap label (if decide (length (onlineUsers s) = 0) then [NoUsersYet] else []))
      with (@nil string) by by case_decide.
    cbn [app]. generalize (filter (λ user, IUser.room user = room s) (onlineUsers s)).
    intros us. induction us as [|user us IH]; [done|]. cbn. by f_equal.
Qed.

(** Scenario 2: alice, in room blue, sees only alice; after switching to
    red she sees only bob. *)
Example alice_sees_blue :
  connectedUsers (render (rendered (run mount session))) = [UserItem "c1" "alice"].
Proof. reflexivity. Qed.

Example alice_sees_red_after_click :
  connectedUsers (render (rendered (run mount (session ++ [User ClickRoom])))) =
    [UserItem "c2" "bob"].
Proof. reflexivity. Qed.

(** X15.  A failing presence query, as far as the code detects one: a rejected
    [fetch] or a body that does not parse is caught and logged, the list
    is left as it was and no request is issued again. *)
Lemma detected_query_failure_keeps_list (tr : list Event) (k : nat) :
  let w := run mount tr in
  (∀ r, tasks w !! k = Some AwaitFetch →
        let w' := step w (FetchSettled k r) in
        onlineUsers (state w') = onlineUsers (state w) ∧ fetches w' = fetches w ∧
        (r = None → console w' = console w ++ [LogError NetworkError] ∧ tasks w' = delete k (tasks w))) ∧
  (∀ response, tasks w !! k = Some (AwaitJson response) → body response = None →
        let w' := step w (JsonSettled k) in
        onlineUsers (state w') = onlineUsers (state w) ∧ fetches w' = fetches w ∧
        console w' = console w ++ [LogError SyntaxError] ∧ tasks w' = delete k (tasks w)).
Proof.
  cbv zeta. split.
  - intros r Hk. unfold step, handle. rewrite Hk. destruct r; simpl; [done|].
    by repeat split.
  - intros response Hk Hbody. unfold step, handle, fetchOnlineUsers_parsed.
    by rewrite Hk, Hbody.
Qed.

(** C9 on the code: a response with status 500 is not [ok], yet the
    [if (response)] test lets it through; when its body parses, the list
    held before ([alice; bob]) is replaced by the body's list, here the
    empty one, and nothing is logged. *)
Definition server_error : Response := mkResponse 500 (Some (Data.mk [])).

Definition failed_query : list Event :=
  session ++ [Server newConnection; FetchSettled 1 (Some server_error); JsonSettled 1].

Lemma non_success_response_replaces_list :
  ok server_error = false ∧
  onlineUsers (state (run mount (session ++ [Server newConnection]))) = [alice; bob] ∧
  onlineUsers (state (run mount failed_query)) = [] ∧
  console (run mount failed_query) = console (run mount (session ++ [Server newConnection])).
Proof. split; [|split; [|split]]; vm_compute; reflexivity. Qed.

(** ** Rooms *)

(** C7 as stated: once a ['setUsername'] has been emitted, event [e]
    leaves the room as it is. *)
Definition room_fixed_after_submit (w : World) (e : Event) : Prop :=
  (∃ p, ("setUsername", p) ∈ emitted w) →
  room (state (step w e)) = room (state w).

(** It fails: the Room button still toggles the room after the identity
    has been submitted and confirmed. *)
Lemma room_toggles_after_submit :
  ¬ room_fixed_after_submit
      (run mount [User (ChangeUsername "alice"); User SubmitUsername; Server loggedin])
      (User ClickRoom).
Proof.
  unfold room_fixed_after_submit. intros H.
  assert (Hfalse : "red" = "blue"); [|discriminate Hfalse].
  apply H. exists (UsernamePayload "alice" "blue"). apply list_elem_of_singleton.
  reflexivity.
Qed.

(** A message sent after such a click carries the new room. *)
Example message_after_toggle_carries_red :
  emitted (run mount (session ++ [User ClickRoom; User (SubmitMessage 1000)])) =
    [("setUsername", UsernamePayload "alice" "blue");
     ("sendmessage", MessagePayload (IMessage.mk "hi" "alice" (Some "c1") 1000) "red")].
Proof. reflexivity. Qed.

(** C7, amended.  The room is always one of ["blue"] and ["red"], starting
    at ["blue"]; in every reachable world, before or after the identity
    has been submitted, a click on the Room button flips it, and no other
    event changes it. *)
Theorem room_is_blue_or_red_and_only_toggles (tr : list Event) (e : Event) :
  let w := run mount tr in
  room (state mount) = "blue" ∧
  (room (state w) = "blue" ∨ room (state w) = "red") ∧
  room (state (step w e)) =
    if decide (e = User ClickRoom)
    then (if decide (room (state w) = "blue") then "red" else "blue")
    else room (state w).
Proof.
  cbv zeta. split; [done|]. split.
  - apply (inv_room _ _ (run_inv tr)).
  - apply (step_room _ _ e (run_inv tr)).
Qed.

(** ** Sending *)

(** C10.  In every reachable world whose logged-in flag is false, no
    ['loggedin'] has been received, the message input is disabled, every
    event emitted so far is a ['setUsername'] (so no ['sendmessage'] has
    been emitted), and submitting the message form emits nothing. *)
Theorem no_sendmessage_before_loggedin (tr : list Event) :
  let w := run mount tr in
  loggedIn (state w) = false →
  logins tr = 0 ∧
  messageDisabled (render (rendered w)) = true ∧
  (∀ name p, (name, p) ∈ emitted w → name = "setUsername") ∧
  (∀ p, ("sendmessage", p) ∉ emitted w) ∧
  (∀ now, emitted (step w (User (SubmitMessage now))) = emitted w).
Proof.
  cbv zeta. pose proof (run_inv tr) as [Hr Hl Hlog Hroom Hem]. intros Hli.
  split; [|split; [|split; [|split]]].
  - rewrite Hlog in Hli. apply bool_decide_eq_false in Hli. lia.
  - rewrite Hr. simpl. by rewrite Hli.
  - intros name p Hin. apply (Hem Hli _ Hin).
  - intros p Hin. by specialize (Hem Hli _ Hin).
  - intros now. unfold step, handle, user_cmds. rewrite Hr. simpl. by rewrite Hli.
Qed.

(** Submitting a message before the server has confirmed the login. *)
Definition impatient : list Event :=
  [Server (connect "c1"); User (ChangeUsername "alice"); User SubmitUsername;
   User (ChangeMessage "hi"); User (SubmitMessage 1000)].

Lemma no_sendmessage_before_loggedin_witness :
  logins impatient = 0 ∧
  messageDisabled (render (rendered (run mount impatient))) = true ∧
  (∀ name p, (name, p) ∈ emitted (run mount impatient) → name = "setUsername") ∧
  (∀ p, ("sendmessage", p) ∉ emitted (run mount impatient)) ∧
  (∀ now, emitted (step (run mount impatient) (User (SubmitMessage now))) =
            emitted (run mount impatient)).
Proof. apply (no_sendmessage_before_loggedin impatient). reflexivity. Defined.

Example impatient_emits_only_setUsername :
  emitted (run mount impatient) = [("setUsername", UsernamePayload "alice" "blue")].
Proof. reflexivity. Qed.

(** * Further properties of the component *)

(** ** What each event emits, appends and requests *)

(** The message [handleMessageSubmit] builds in world [w] at time [now]. *)
Definition own_message (w : World) (now : Z) : IMessage.t :=
  {| IMessage.text := message (state w); IMessage.sender := username (state w);
     IMessage.socketId := socket_id w; IMessage.timestamp := now |}.

(** The socket events event [e] makes the client emit in world [w]: only
    the two form submits emit, each when its input is enabled. *)
Definition emits (w : World) (e : Event) : list (string * Payload) :=
  match e with
  | User SubmitUsername =>
      if loggedIn (state w) then []
      else [("setUsername", UsernamePayload (username (state w)) (room (state w)))]
  | User (SubmitMessage now) =>
      if loggedIn (state w)
      then [("sendmessage", MessagePayload (own_message w now) (room (state w)))]
      else []
  | _ => []
  end.

(** The messages event [e] adds to the history in world [w]. *)
Definition appends (w : World) (e : Event) : list IMessage.t :=
  match e with
  | Server (message_ m) => [m]
  | User (SubmitMessage now) => if loggedIn (state w) then [own_message w now] else []
  | _ => []
  end.

(** How many presence queries event [e] starts when [n] ['loggedin']
    events have been received before it. *)
Definition queries (n : nat) (e : Event) : nat :=
  match e with
  | Server loggedin => 1
  | Server newConnection => n
  | _ => 0
  end.

(** The messages carried by a list of emitted events. *)
Definition sent (es : list (string * Payload)) : list IMessage.t :=
  omap (λ ev, match ev.2 with MessagePayload m _ => Some m | _ => None end) es.

Lemma step_emitted n w e :
  Inv n w → emitted (step w e) = emitted w ++ emits w e.
Proof.
  intros Hinv. unfold emits, own_message.
  event_cases Hinv e; simpl; try destruct (loggedIn (state w)); simpl;
    rewrite ?app_nil_r; congruence.
Qed.

Lemma step_history n w e :
  Inv n w → chatHistory (state (step w e)) = chatHistory (state w) ++ appends w e.
Proof.
  intros Hinv. unfold appends, own_message.
  event_cases Hinv e; simpl; try destruct (loggedIn (state w)); simpl;
    rewrite ?app_nil_r; congruence.
Qed.

Lemma step_fetches n w e :
  Inv n w →
  fetches (step w e) = fetches w ++ replicate (queries n e) fetchOnlineUsers_url.
Proof.
  intros Hinv. unfold queries.
  event_cases Hinv e; simpl; try destruct (loggedIn (state w)); simpl;
    rewrite ?app_nil_r; congruence.
Qed.

Lemma step_username n w e :
  Inv n w →
  username (state (step w e)) =
    match e with
    | User (ChangeUsername v) => if loggedIn (state w) then username (state w) else v
    | _ => username (state w)
    end.
Proof.
  intros Hinv.
  event_cases Hinv e; simpl; try destruct (loggedIn (state w)); simpl; congruence.
Qed.

Lemma step_draft n w e :
  Inv n w →
  message (state (step w e)) =
    match e with
    | User (ChangeMessage v) => if loggedIn (state w) then v else message (state w)
    | User (SubmitMessage _) => if loggedIn (state w) then "" else message (state w)
    | _ => message (state w)
    end.
Proof.
  intros Hinv.
  event_cases Hinv e; simpl; try destruct (loggedIn (state w)); simpl; congruence.
Qed.

Lemma step_loggedIn n w e :
  Inv n w →
  loggedIn (state (step w e)) =
    match e with Server loggedin => true | _ => loggedIn (state w) end.
Proof.
  intros Hinv.
  event_cases Hinv e; simpl; try destruct (loggedIn (state w)) eqn:?; simpl; congruence.
Qed.

(** ** The suspended queries *)

(** What a settlement does to the suspension [t] of task [k]: the
    [fetch] settlement moves a task waiting for it to the [json()] await
    (or ends it, on rejection), the [json()] settlement ends a task
    waiting for it; a promise that is not awaited resumes nothing. *)
Definition resume (e : Event) (k : nat) (t : option Task) : option Task :=
  match e, t with
  | FetchSettled k' r, Some AwaitFetch => if decide (k = k') then AwaitJson <$> r else t
  | JsonSettled k', Some (AwaitJson _) => if decide (k = k') then None else t
  | _, _ => t
  end.

Lemma exec_newConnection_listeners_tasks n w i :
  tasks (exec_all w (replicate n newConnection_listener ≫=
                       (λ nl, listener_body nl.2 newConnection))) !! i =
    if decide (length (fetches w) ≤ i < length (fetches w) + n)
    then Some AwaitFetch else tasks w !! i.
Proof.
  revert w. induction n as [|n IH]; intros w.
  - simpl. by rewrite decide_False by lia.
  - cbn [replicate]. rewrite bind_cons. unfold exec_all in *. rewrite foldl_app.
    rewrite IH. simpl. rewrite length_app. simpl.
    destruct (decide (i = length (fetches w))) as [->|Hne].
    + rewrite lookup_insert_eq. repeat case_decide; try done; lia.
    + rewrite lookup_insert_ne by done. repeat case_decide; try done; lia.
Qed.

Lemma step_tasks n w e i :
  Inv n w →
  tasks (step w e) !! i =
    if decide (length (fetches w) ≤ i < length (fetches w) + queries n e)
    then Some AwaitFetch else resume e i (tasks w !! i).
Proof.
  intros [Hr Hl _ _ _].
  destruct e as [u|[sid| | |m]|k r|k]; unfold step, handle; cbv zeta;
    cbn [set_socket_id queries resume].
  - rewrite decide_False by lia. unfold user_cmds. rewrite Hr.
    by destruct u; simpl; destruct (loggedIn (state w)).
  - rewrite decide_False by lia. by erewrite server_cmds_connect by exact Hl.
  - erewrite server_cmds_loggedin by exact Hl. simpl.
    destruct (decide (i = length (fetches w))) as [->|Hne].
    + rewrite lookup_insert_eq. by rewrite decide_True by lia.
    + rewrite lookup_insert_ne by done. by rewrite decide_False by lia.
  - erewrite server_cmds_newConnection by exact Hl. simpl.
    apply exec_newConnection_listeners_tasks.
  - rewrite decide_False by lia. by erewrite server_cmds_message by exact Hl.
  - rewrite decide_False by lia.
    destruct (tasks w !! k) as [[|response]|] eqn:Hk; simpl.
    + destruct r as [response|]; simpl.
      * destruct (decide (i = k)) as [->|Hne].
        -- by rewrite lookup_insert_eq, Hk.
        -- rewrite lookup_insert_ne by done. by destruct (tasks w !! i) as [[]|].
      * destruct (decide (i = k)) as [->|Hne].
        -- by rewrite lookup_delete_eq, Hk.
        -- rewrite lookup_delete_ne by done. by destruct (tasks w !! i) as [[]|].
    + destruct (decide (i = k)) as [->|Hne]; [by rewrite Hk|].
      destruct (tasks w !! i) as [[]|]; try done; by rewrite decide_False.
    + destruct (decide (i = k)) as [->|Hne]; [by rewrite Hk|].
      destruct (tasks w !! i) as [[]|]; try done; by rewrite decide_False.
  - rewrite decide_False by lia.
    destruct (tasks w !! k) as [[|response]|] eqn:Hk; simpl.
    + destruct (decide (i = k)) as [->|Hne]; [by rewrite Hk|].
      destruct (tasks w !! i) as [[]|]; try done; by rewrite decide_False.
    + unfold fetchOnlineUsers_parsed. destruct (body response); simpl.
      all: destruct (decide (i = k)) as [->|Hne];
        [ by rewrite lookup_delete_eq, Hk
        | rewrite lookup_delete_ne by done; by destruct (tasks w !! i) as [[]|] ].
    + destruct (decide (i = k)) as [->|Hne]; [by rewrite Hk|].
      destruct (tasks w !! i) as [[]|]; try done; by rewrite decide_False.
Qed.

(** ** Chat history, continued *)

Lemma run_history_prefix tr tr2 :
  chatHistory (state (run mount tr)) `prefix_of`
    chatHistory (state (run mount (tr ++ tr2))).
Proof.
  induction tr2 as [|e tr2 IH] using rev_ind.
  - by rewrite app_nil_r.
  - rewrite app_assoc, run_snoc, (step_history _ _ e (run_inv (tr ++ tr2))).
    by apply prefix_app_r.
Qed.

Lemma sent_app es1 es2 : sent (es1 ++ es2) = sent es1 ++ sent es2.
Proof. apply omap_app. Qed.

Lemma appends_sent_received w e :
  appends w e =
    sent (emits w e) ++ match e with Server (message_ m) => [m] | _ => [] end.
Proof.
  destruct e as [[]|[]| |]; simpl; try done;
    by destruct (loggedIn (state w)).
Qed.

(** X1.  The history is never rewritten: whatever happens later, the history
    of now is an initial segment of the history of then. *)
Theorem history_is_append_only (tr tr2 : list Event) :
  chatHistory (state (run mount tr)) `prefix_of`
    chatHistory (state (run mount (tr ++ tr2))).
Proof. apply run_history_prefix. Qed.

(** X2.  The history holds exactly the messages received and the messages the
    client itself sent: it is a rearrangement of the two lists, and it
    keeps the order of the client's own messages (as it keeps the order
    of the received ones). *)
Theorem history_is_received_and_sent (tr : list Event) :
  let w := run mount tr in
  chatHistory (state w) ≡ₚ received tr ++ sent (emitted w) ∧
  sent (emitted w) `sublist_of` chatHistory (state w).
Proof.
  cbv zeta. induction tr as [|e tr [IHp IHs]] using rev_ind; [done|].
  rewrite run_snoc, received_snoc.
  rewrite (step_history _ _ e (run_inv tr)), (step_emitted _ _ e (run_inv tr)).
  rewrite sent_app, appends_sent_received. split.
  - rewrite IHp. solve_Permutation.
  - apply sublist_app; [done|]. by apply sublist_inserts_r.
Qed.

(** X3.  The rendered history has one item per message, keyed by its position;
    an item, once rendered, is rendered under the same key with the same
    message ever after. *)
Theorem history_items_are_stable (tr tr2 : list Event) (i : nat) :
  let items tr := historyItems (render (rendered (run mount tr))) in
  length (items tr) = length (chatHistory (state (run mount tr))) ∧
  ∀ key m, items tr !! i = Some (key, m) →
           key = i ∧ chatHistory (state (run mount tr)) !! i = Some m ∧
           items (tr ++ tr2) !! i = Some (i, m).
Proof.
  cbv beta zeta.
  rewrite (inv_rendered _ _ (run_inv tr)), (inv_rendered _ _ (run_inv (tr ++ tr2))).
  cbn [render historyItems].
  split; [by rewrite length_imap|].
  intros key m. rewrite !list_lookup_imap.
  destruct (chatHistory (state (run mount tr)) !! i) as [m'|] eqn:Hi; [|done].
  intros [= <- <-]. repeat split.
  destruct (run_history_prefix tr tr2) as [l ->].
  by rewrite (lookup_app_l_Some _ _ _ _ Hi).
Qed.

(** ** Identity, continued *)

Lemma run_loggedIn_stays tr tr2 :
  loggedIn (state (run mount tr)) = true →
  loggedIn (state (run mount (tr ++ tr2))) = true.
Proof.
  intros Hli. induction tr2 as [|e tr2 IH] using rev_ind.
  - by rewrite app_nil_r.
  - rewrite app_assoc, run_snoc, (step_loggedIn _ _ e (run_inv (tr ++ tr2))), IH.
    by destruct e as [|[]| |].
Qed.

(** X4.  There is no way back from the logged-in state: once a ['loggedin'] has
    been received the flag stays true and the username input stays
    disabled, so the username keeps the value it had then, and of the two
    events only ['sendmessage'] is emitted from then on: the identity is
    never declared again. *)
Theorem identity_is_fixed_after_login (tr tr2 : list Event) :
  let w := run mount tr in
  let w2 := run mount (tr ++ tr2) in
  loggedIn (state w) = true →
  loggedIn (state w2) = true ∧
  usernameDisabled (render (rendered w2)) = true ∧
  username (state w2) = username (state w) ∧
  ∃ es, emitted w2 = emitted w ++ es ∧ ∀ ev, ev ∈ es → ev.1 = "sendmessage".
Proof.
  cbv zeta. intros Hli. induction tr2 as [|e tr2 IH] using rev_ind.
  - rewrite app_nil_r, (inv_rendered _ _ (run_inv tr)). repeat split; try done.
    exists []. split; [by rewrite app_nil_r|]. by intros ev ?%elem_of_nil.
  - destruct IH as (_ & _ & Hu & es & Hes & Hnames).
    pose proof (run_loggedIn_stays tr tr2 Hli) as Hli2.
    pose proof (run_loggedIn_stays tr (tr2 ++ [e]) Hli) as Hli3.
    rewrite app_assoc in Hli3 |- *.
    rewrite (inv_rendered _ _ (run_inv _)). split; [done|]. split; [done|].
    rewrite run_snoc. split.
    + rewrite (step_username _ _ e (run_inv (tr ++ tr2))), Hli2.
      by destruct e as [[]| | |].
    + rewrite (step_emitted _ _ e (run_inv (tr ++ tr2))), Hes, <- app_assoc.
      eexists; split; [done|].
      intros ev [Hev|Hev]%elem_of_app; [by apply Hnames|].
      revert Hev. unfold emits. rewrite Hli2.
      destruct e as [[]| | |]; try by intros ?%elem_of_nil.
      by intros ->%list_elem_of_singleton.
Qed.

Lemma identity_is_fixed_after_login_witness :
  let w := run mount session in
  let w2 := run mount (session ++ [User (ChangeUsername "mallory"); User SubmitUsername;
                                   User (SubmitMessage 1000)]) in
  loggedIn (state w2) = true ∧
  usernameDisabled (render (rendered w2)) = true ∧
  username (state w2) = username (state w) ∧
  ∃ es, emitted w2 = emitted w ++ es ∧ ∀ ev, ev ∈ es → ev.1 = "sendmessage".
Proof. apply (identity_is_fixed_after_login session). reflexivity. Defined.

(** X5.  Everything the client ever emits is one of two events: a
    ['setUsername'] with a username and a room, or a ['sendmessage'] with
    a message and a room; the room is always ["blue"] or ["red"], and the
    sender of every message sent is the username the client has now. *)
Theorem emitted_events_are_well_formed (tr : list Event) :
  let w := run mount tr in
  ∀ name p, (name, p) ∈ emitted w →
    (name = "setUsername" ∧
       ∃ u r, p = UsernamePayload u r ∧ (r = "blue" ∨ r = "red")) ∨
    (name = "sendmessage" ∧
       ∃ m r, p = MessagePayload m r ∧ IMessage.sender m = username (state w) ∧
              (r = "blue" ∨ r = "red")).
Proof.
  cbv zeta. induction tr as [|e tr IH] using rev_ind.
  - by intros name p ?%elem_of_nil.
  - pose proof (run_inv tr) as Hinv. pose proof (inv_room _ _ Hinv) as Hroom.
    rewrite run_snoc. intros name p.
    rewrite (step_emitted _ _ e Hinv), (step_username _ _ e Hinv).
    intros [Hin|Hin]%elem_of_app.
    + destruct (IH name p Hin) as [?|(-> & m & r & -> & Hs & Hr)]; [by left|].
      right. split; [done|]. exists m, r. repeat split; try done. rewrite Hs.
      destruct e as [[v| | | |]| | |]; try done.
      destruct (loggedIn (state (run mount tr))) eqn:Hli; [done|].
      by specialize (inv_emitted _ _ Hinv Hli _ Hin).
    + revert Hin. unfold emits.
      destruct e as [[]| | |]; try (by intros ?%elem_of_nil);
        destruct (loggedIn (state (run mount tr))); try (by intros ?%elem_of_nil);
        intros [= -> ->]%list_elem_of_singleton.
      * left. split; [done|]. by eexists _, _.
      * right. split; [done|]. by eexists _, _.
Qed.

Lemma emitted_events_are_well_formed_witness :
  let w := run mount (session ++ [User (SubmitMessage 1000)]) in
  let name := "sendmessage" in
  let p := MessagePayload (IMessage.mk "hi" "alice" (Some "c1") 1000) "blue" in
  (name = "setUsername" ∧
     ∃ u r, p = UsernamePayload u r ∧ (r = "blue" ∨ r = "red")) ∨
  (name = "sendmessage" ∧
     ∃ m r, p = MessagePayload m r ∧ IMessage.sender m = username (state w) ∧
            (r = "blue" ∨ r = "red")).
Proof.
  apply (emitted_events_are_well_formed (session ++ [User (SubmitMessage 1000)])).
  vm_compute. constructor. constructor.
Defined.

(** ** Inputs and the Room button *)

(** X6.  At any time exactly one of the two inputs is enabled: the username
    input before the login, the message input after it.  Typing into the
    enabled input sets the value it shows; typing into the disabled one
    changes nothing at all. *)
Theorem typing_reaches_the_enabled_input (tr : list Event) (v : string) :
  let w := run mount tr in
  let typed_username := step w (User (ChangeUsername v)) in
  let typed_message := step w (User (ChangeMessage v)) in
  messageDisabled (render (rendered w)) = negb (usernameDisabled (render (rendered w))) ∧
  if usernameDisabled (render (rendered w))
  then typed_username = w ∧
       messageValue (render (rendered typed_message)) = v ∧
       state typed_message =
         mkHome (username (state w)) v true (onlineUsers (state w))
                (chatHistory (state w)) (room (state w))
  else typed_message = w ∧
       usernameValue (render (rendered typed_username)) = v ∧
       state typed_username =
         mkHome v (message (state w)) false (onlineUsers (state w))
                (chatHistory (state w)) (room (state w)).
Proof.
  cbv zeta. pose proof (inv_rendered _ _ (run_inv tr)) as Hr.
  unfold step, handle, user_cmds. rewrite Hr. simpl. split; [done|].
  destruct (run mount tr) as [s r]; simpl in *; subst r.
  destruct (loggedIn s) eqn:Hli; simpl; rewrite ?Hli; simpl; done.
Qed.

(** X7.  Two clicks on the Room button bring the room back, and the colour of
    the button tells the room: primary for ["blue"], danger for ["red"]. *)
Theorem room_toggle_is_an_involution (tr : list Event) :
  let w := run mount tr in
  room (state (run w [User ClickRoom; User ClickRoom])) = room (state w) ∧
  (roomVariant (render (rendered w)) = "primary" ↔ room (state w) = "blue") ∧
  (roomVariant (render (rendered w)) = "danger" ↔ room (state w) = "red").
Proof.
  cbv zeta. pose proof (run_inv tr) as Hinv.
  pose proof (step_inv _ _ (User ClickRoom) Hinv) as Hinv'.
  cbn [run foldl].
  rewrite (step_room _ _ _ Hinv'), (step_room _ _ _ Hinv), !decide_True by done.
  rewrite (inv_rendered _ _ Hinv). cbn [render roomVariant].
  destruct (inv_room _ _ Hinv) as [-> | ->]; repeat split; done.
Qed.

(** ** Presence, continued *)

Lemma filter_none {A} (P : A → Prop) `{!∀ x, Decision (P x)} (l : list A) :
  (∀ x, x ∈ l → ¬ P x) → filter P l = [].
Proof.
  induction l as [|x l IH]; intros Hl; [done|].
  rewrite filter_cons, decide_False by (apply Hl; left).
  apply IH. intros y Hy. apply Hl. by right.
Qed.

(** X8.  The "No users yet!" item is shown exactly when the last snapshot is
    empty, whatever the room; when the snapshot has participants but none
    of them in the selected room, the column shows nothing at all. *)
Theorem no_users_placeholder (tr : list Event) :
  let w := run mount tr in
  let snapshot := last_delivered mount [] tr in
  let view := connectedUsers (render (rendered w)) in
  (NoUsersYet ∈ view ↔ snapshot = []) ∧
  (snapshot = [] → view = [NoUsersYet]) ∧
  (snapshot ≠ [] → (∀ user, user ∈ snapshot → IUser.room user ≠ room (state w)) →
   view = []).
Proof.
  cbv zeta. rewrite <- onlineUsers_last_delivered, (inv_rendered _ _ (run_inv tr)).
  cbn [render connectedUsers].
  destruct (onlineUsers (state (run mount tr))) as [|user us] eqn:Hus.
  - split; [|split]; try done. split; [done|]. intros _. by left.
  - rewrite decide_False by done. cbn [app]. split; [|split]; try done.
    + split; [|done]. by intros (? & ? & ?)%list_elem_of_fmap.
    + intros _ Hroom. by rewrite filter_none.
Qed.

(** X9.  The listeners on the socket: those of the mount effect, registered
    once and never removed, and one ['newConnection'] listener more for
    every ['loggedin'] received. *)
Theorem listeners_accumulate (tr : list Event) :
  listeners (run mount tr) =
    [("connect", mkListener onConnect initialState);
     ("loggedin", mkListener onLoggedin initialState);
     ("message", mkListener onMessage initialState)] ++
    replicate (logins tr) ("newConnection", mkListener onNewConnection initialState).
Proof. apply (inv_listeners _ _ (run_inv tr)). Qed.

(** X10.  The client emits only when a form is submitted: one ['setUsername']
    for a username submit before the login, one ['sendmessage'] for a
    message submit after it, and nothing for any other event, be it
    typing, a click, a server event or the completion of a query. *)
Theorem emits_only_on_submit (tr : list Event) (e : Event) :
  let w := run mount tr in
  emitted (step w e) = emitted w ++ emits w e ∧
  (length (emits w e) ≤ 1)%nat ∧
  ((∀ now, e ≠ User (SubmitMessage now)) → e ≠ User SubmitUsername →
   emitted (step w e) = emitted w).
Proof.
  cbv zeta. rewrite (step_emitted _ _ e (run_inv tr)). split; [done|]. split.
  - destruct e as [[]| | |]; simpl; try lia;
      destruct (loggedIn (state (run mount tr))); simpl; lia.
  - intros Hm Hu. destruct e as [[| | | |now]| | |]; simpl;
      rewrite ?app_nil_r; try done.
    by destruct (Hm now).
Qed.

(** X11.  Presence queries are started by the two presence signals only: one by
    a ['loggedin'], one per ['loggedin'] received so far by a
    ['newConnection'].  No user action, message or settlement of an
    earlier query starts one: there is no polling and no retry.  Every
    query is a request to the same address. *)
Theorem queries_start_on_presence_signals_only (tr : list Event) (e : Event) :
  let w := run mount tr in
  fetches (step w e) =
    fetches w ++ replicate (queries (logins tr) e) "http://localhost:3030/online-users" ∧
  ∀ u, u ∈ fetches w → u = "http://localhost:3030/online-users".
Proof.
  cbv zeta. split; [apply (step_fetches _ _ e (run_inv tr))|].
  induction tr as [|e' tr IH] using rev_ind; [by intros u ?%elem_of_nil|].
  rewrite run_snoc, (step_fetches _ _ e' (run_inv tr)).
  intros u [Hu|Hu]%elem_of_app; [by apply IH|].
  by apply elem_of_replicate_inv in Hu.
Qed.

(** ** The life of a query *)

(** A suspension only moves forward: it stays, or the task ends, or it
    passes from the [fetch] await to the [json()] await. *)
Definition advanced (t t' : option Task) : Prop :=
  t' = t ∨ t' = None ∨ (t = Some AwaitFetch ∧ ∃ response, t' = Some (AwaitJson response)).

Lemma advanced_trans t1 t2 t3 : advanced t1 t2 → advanced t2 t3 → advanced t1 t3.
Proof.
  intros [->|[->|[-> [r1 ->]]]] [->|[->|[H [r2 ->]]]]; unfold advanced; eauto;
    try discriminate.
Qed.

Lemma resume_advanced e k t : advanced t (resume e k t).
Proof.
  unfold advanced.
  destruct e as [| |k' r|k'], t as [[|response]|]; simpl; eauto;
    case_decide; eauto.
  destruct r; simpl; eauto.
Qed.

Lemma resume_is_Some e k t : is_Some (resume e k t) → is_Some t.
Proof. destruct (resume_advanced e k t) as [->|[->|[-> _]]]; eauto. by intros [? ?]. Qed.

Lemma run_tasks_bound tr k :
  is_Some (tasks (run mount tr) !! k) → k < length (fetches (run mount tr)).
Proof.
  revert k. induction tr as [|e tr IH] using rev_ind; intros k.
  - by intros [? ?].
  - rewrite run_snoc, (step_tasks _ _ e k (run_inv tr)),
      (step_fetches _ _ e (run_inv tr)), length_app, length_replicate.
    case_decide; [lia|]. intros Hk%resume_is_Some%IH. lia.
Qed.

Lemma run_task_advanced tr tr2 k :
  k < length (fetches (run mount tr)) →
  k < length (fetches (run mount (tr ++ tr2))) ∧
  advanced (tasks (run mount tr) !! k) (tasks (run mount (tr ++ tr2)) !! k).
Proof.
  intros Hk. induction tr2 as [|e tr2 [IHk IH]] using rev_ind.
  - rewrite app_nil_r. split; [done|]. by left.
  - rewrite app_assoc, run_snoc.
    rewrite (step_tasks _ _ e k (run_inv (tr ++ tr2))),
      (step_fetches _ _ e (run_inv (tr ++ tr2))), length_app, length_replicate.
    split; [lia|]. rewrite decide_False by lia.
    eapply advanced_trans; [done|]. apply resume_advanced.
Qed.

(** X12.  Every suspended query belongs to a request that was issued, a query
    that starts gets a task of its own, and a query is resumed only by
    the settlement of the promise it awaits: starting further queries
    never disturbs one that is pending. *)
Theorem every_query_has_its_own_task (tr : list Event) (e : Event) (k : nat) :
  let w := run mount tr in
  (is_Some (tasks w !! k) → k < length (fetches w)) ∧
  (k < length (fetches w) → tasks (step w e) !! k = resume e k (tasks w !! k)) ∧
  (length (fetches w) ≤ k < length (fetches (step w e)) →
   tasks (step w e) !! k = Some AwaitFetch).
Proof.
  cbv zeta. split; [apply run_tasks_bound|].
  rewrite (step_tasks _ _ e k (run_inv tr)), (step_fetches _ _ e (run_inv tr)),
    length_app, length_replicate.
  split; intros Hk.
  - by rewrite decide_False by lia.
  - by rewrite decide_True by lia.
Qed.

(** X13.  A query only moves forward, whatever happens: once it has ended (its
    snapshot applied, or its failure logged) it is never resumed again,
    and once its response has arrived it keeps that response until it
    ends.  So a query hands over its snapshot at most once. *)
Theorem settled_query_never_resumes (tr tr2 : list Event) (k : nat) :
  let w := run mount tr in
  let w2 := run mount (tr ++ tr2) in
  k < length (fetches w) →
  (tasks w !! k = None → tasks w2 !! k = None) ∧
  (∀ response, tasks w !! k = Some (AwaitJson response) →
     tasks w2 !! k = Some (AwaitJson response) ∨ tasks w2 !! k = None).
Proof.
  cbv zeta. intros Hk.
  destruct (run_task_advanced tr tr2 k Hk) as [_ Hadv]. split.
  - intros Hnone. rewrite Hnone in Hadv.
    by destruct Hadv as [->|[->|[? _]]].
  - intros response Hr. rewrite Hr in Hadv.
    destruct Hadv as [->|[->|[? _]]]; eauto. discriminate.
Qed.

Lemma settled_query_never_resumes_witness :
  let w := run mount session in
  let w2 := run mount (session ++ [JsonSettled 0; FetchSettled 0 None;
                                   Server newConnection; JsonSettled 0]) in
  (tasks w !! 0 = None → tasks w2 !! 0 = None) ∧
  (∀ response, tasks w !! 0 = Some (AwaitJson response) →
     tasks w2 !! 0 = Some (AwaitJson response) ∨ tasks w2 !! 0 = None).
Proof.
  apply (settled_query_never_resumes session). vm_compute. lia.
Defined.

(** ** Sending, continued *)

(** X14.  A message submit clears the draft and nothing checks that a draft is
    not empty: submitting twice in a row sends, after the drafted
    message, a second message with empty text, and both are in the
    history. *)
Theorem resubmit_sends_empty_message (tr : list Event) (now1 now2 : Z) :
  let w := run mount tr in
  let w2 := run w [User (SubmitMessage now1); User (SubmitMessage now2)] in
  let first := own_message w now1 in
  let second := IMessage.mk "" (username (state w)) (socket_id w) now2 in
  loggedIn (state w) = true →
  chatHistory (state w2) = chatHistory (state w) ++ [first; second] ∧
  emitted w2 = emitted w ++ [("sendmessage", MessagePayload first (room (state w)));
                             ("sendmessage", MessagePayload second (room (state w)))].
Proof.
  cbv zeta. intros Hli. pose proof (inv_rendered _ _ (run_inv tr)) as Hr.
  cbn [run foldl]. unfold step, handle, user_cmds, own_message.
  simpl. rewrite Hr. simpl. rewrite Hli. simpl. rewrite Hli. simpl.
  by rewrite <- !app_assoc.
Qed.

Lemma resubmit_sends_empty_message_witness :
  let w := run mount session in
  let w2 := run w [User (SubmitMessage 1000); User (SubmitMessage 1001)] in
  let first := own_message w 1000 in
  let second := IMessage.mk "" (username (state w)) (socket_id w) 1001 in
  chatHistory (state w2) = chatHistory (state w) ++ [first; second] ∧
  emitted w2 = emitted w ++ [("sendmessage", MessagePayload first (room (state w)));
                             ("sendmessage", MessagePayload second (room (state w)))].
Proof. apply (resubmit_sends_empty_message session 1000 1001). reflexivity. Defined.

(** ** The console and the inputs *)

Lemma exec_newConnection_listeners_console n w :
  console (exec_all w (replicate n newConnection_listener ≫=
                         (λ nl, listener_body nl.2 newConnection))) =
    console w ++ replicate n (LogText "watch out! a new challenger appears!").
Proof.
  revert w. induction n as [|n IH]; intros w.
  - simpl. by rewrite app_nil_r.
  - cbn [replicate]. rewrite bind_cons. unfold exec_all in *. rewrite foldl_app.
    rewrite IH. simpl. by rewrite <- app_assoc.
Qed.

(** What the component can write to the console. *)
Definition loggable (l : LogEntry) : Prop :=
  l ∈ [LogText "Connection established!"; LogText "you're logged in!";
       LogText "watch out! a new challenger appears!";
       LogText "a new message appeared!";
       LogError NetworkError; LogError SyntaxError].

Lemma step_console n w e :
  Inv n w → ∃ ls, console (step w e) = console w ++ ls ∧ Forall loggable ls.
Proof.
  intros [Hr Hl _ _ _].
  destruct e as [u|[sid| | |m]|k r|k]; unfold step, handle; cbv zeta;
    cbn [set_socket_id].
  - exists []. rewrite app_nil_r. split; [|done]. unfold user_cmds. rewrite Hr.
    by destruct u; simpl; destruct (loggedIn (state w)).
  - erewrite server_cmds_connect by exact Hl. eexists; split; [done|].
    repeat constructor; unfold loggable; set_solver.
  - erewrite server_cmds_loggedin by exact Hl. eexists; split; [done|].
    repeat constructor; unfold loggable; set_solver.
  - erewrite server_cmds_newConnection by exact Hl. simpl.
    rewrite exec_newConnection_listeners_console. eexists; split; [done|].
    apply Forall_replicate. unfold loggable; set_solver.
  - erewrite server_cmds_message by exact Hl. eexists; split; [done|].
    repeat constructor; unfold loggable; set_solver.
  - destruct (tasks w !! k) as [[|response]|]; simpl;
      [|by exists []; rewrite app_nil_r..].
    destruct r as [response|]; simpl.
    + exists []. by rewrite app_nil_r.
    + eexists; split; [done|]. repeat constructor; unfold loggable; set_solver.
  - destruct (tasks w !! k) as [[|response]|]; simpl;
      [by exists []; rewrite app_nil_r| |by exists []; rewrite app_nil_r].
    unfold fetchOnlineUsers_parsed. destruct (body response); simpl.
    + exists []. by rewrite app_nil_r.
    + eexists; split; [done|]. repeat constructor; unfold loggable; set_solver.
Qed.

(** X16.  The [else] branch of [fetchOnlineUsers] is dead: whatever responses
    arrive, "error fetching the online users" is never logged; the
    console only ever shows the four listener lines and the two caught
    errors. *)
Theorem error_branch_is_never_taken (tr : list Event) :
  Forall loggable (console (run mount tr)) ∧
  LogText "error fetching the online users" ∉ console (run mount tr).
Proof.
  assert (Hall : Forall loggable (console (run mount tr))).
  { induction tr as [|e tr IH] using rev_ind; [done|].
    rewrite run_snoc. destruct (step_console _ _ e (run_inv tr)) as (ls & -> & Hls).
    by apply Forall_app. }
  split; [done|]. intros Hin.
  rewrite Forall_forall in Hall. specialize (Hall _ Hin).
  unfold loggable in Hall.
  repeat (apply elem_of_cons in Hall as [Hall|Hall]; [discriminate Hall|]).
  by apply elem_of_nil in Hall.
Qed.

(** X17.  What arrives from the network never overwrites what the user is
    entering: server events and the settlements of queries leave the
    username, the message draft and the selected room as they are. *)
Theorem network_events_keep_inputs (tr : list Event) (e : Event) :
  let w := run mount tr in
  (∀ u, e ≠ User u) →
  username (state (step w e)) = username (state w) ∧
  message (state (step w e)) = message (state w) ∧
  room (state (step w e)) = room (state w).
Proof.
  cbv zeta. intros Hnet. pose proof (run_inv tr) as Hinv.
  rewrite (step_username _ _ e Hinv), (step_draft _ _ e Hinv), (step_room _ _ e Hinv).
  destruct e as [u| | |]; [by destruct (Hnet u)|..]; by rewrite decide_False.
Qed.

Lemma network_events_keep_inputs_witness :
  let w := run mount session in
  let e := Server (message_ (IMessage.mk "hello" "bob" (Some "c2") 999)) in
  username (state (step w e)) = username (state w) ∧
  message (state (step w e)) = message (state w) ∧
  room (state (step w e)) = room (state w).
Proof. apply (network_events_keep_inputs session). intros u. discriminate. Defined.

(** ** Presence: the order of completion *)

(** The requests a trace makes the client issue, read off the trace
    alone: one per ['loggedin'], and per ['newConnection'] one for every
    ['loggedin'] that came before it; [n] counts the ['loggedin'] events
    before [tr]. *)
Fixpoint requested_from (n : nat) (tr : list Event) : nat :=
  match tr with
  | [] => 0
  | e :: tr =>
      queries n e + requested_from (if decide (e = Server loggedin) then S n else n) tr
  end.

Definition requested (tr : list Event) : nat := requested_from 0 tr.

(** [e] settles the [fetch] promise of request [k]. *)
Definition settles_fetch (k : nat) (e : Event) : bool :=
  match e with
  | FetchSettled k' _ => bool_decide (k' = k)
  | _ => false
  end.

(** [e] settles the [json()] promise of request [k]. *)
Definition settles_json (k : nat) (e : Event) : bool :=
  match e with
  | JsonSettled k' => bool_decide (k' = k)
  | _ => false
  end.

(** [e] settles the [json()] promise of some request: a query completes. *)
Definition completes (e : Event) : bool :=
  match e with
  | JsonSettled _ => true
  | _ => false
  end.

Lemma requested_from_snoc n tr e :
  requested_from n (tr ++ [e]) = requested_from n tr + queries (n + logins tr) e.
Proof.
  revert n. induction tr as [|e' tr IH]; intros n.
  - simpl. rewrite !Nat.add_0_r. done.
  - cbn [app requested_from]. rewrite IH. unfold logins. rewrite filter_cons.
    case_decide; cbn [length]; rewrite ?Nat.add_succ_r; cbn [Nat.add]; lia.
Qed.

Lemma fetches_requested tr : length (fetches (run mount tr)) = requested tr.
Proof.
  unfold requested. induction tr as [|e tr IH] using rev_ind; [done|].
  rewrite run_snoc, (step_fetches _ _ e (run_inv tr)), length_app, length_replicate.
  by rewrite requested_from_snoc, IH.
Qed.

(** A request that has been issued and whose [fetch] promise has not
    settled is suspended at its first [await]. *)
Lemma run_awaits_fetch tr k :
  k < requested tr →
  forallb (λ e, negb (settles_fetch k e)) tr = true →
  tasks (run mount tr) !! k = Some AwaitFetch.
Proof.
  induction tr as [|e tr IH] using rev_ind.
  - unfold requested. simpl. lia.
  - rewrite forallb_app, andb_true_iff. cbn [forallb]. rewrite andb_true_r.
    intros Hk [Htr He].
    rewrite run_snoc, (step_tasks _ _ e k (run_inv tr)). case_decide; [done|].
    rewrite fetches_requested in *. unfold requested in *.
    rewrite requested_from_snoc in Hk. simpl in Hk.
    rewrite IH by (lia || done).
    destruct e as [| |k' r|]; try done. cbn [resume settles_fetch] in *.
    destruct (decide (k = k')) as [->|Hne]; [|done].
    by rewrite bool_decide_true in He.
Qed.

(** A request whose response has arrived keeps it while its [json()]
    promise has not settled. *)
Lemma run_awaits_json tr tr2 k response :
  tasks (run mount tr) !! k = Some (AwaitJson response) →
  forallb (λ e, negb (settles_json k e)) tr2 = true →
  tasks (run mount (tr ++ tr2)) !! k = Some (AwaitJson response).
Proof.
  intros Hk. induction tr2 as [|e tr2 IH] using rev_ind.
  - by rewrite app_nil_r.
  - rewrite forallb_app, andb_true_iff. cbn [forallb]. rewrite andb_true_r.
    intros [Htr2 He]. specialize (IH Htr2).
    rewrite app_assoc, run_snoc, (step_tasks _ _ e k (run_inv (tr ++ tr2))).
    assert (k < length (fetches (run mount (tr ++ tr2)))) by (apply run_tasks_bound; eauto).
    rewrite decide_False by lia. rewrite IH.
    destruct e as [| |k' r|k']; try done. cbn [resume settles_json] in *.
    destruct (decide (k = k')) as [->|Hne]; [|done].
    by rewrite bool_decide_true in He.
Qed.

(** While no query completes the list stays as it is. *)
Lemma run_without_completion tr tr3 :
  forallb (λ e, negb (completes e)) tr3 = true →
  onlineUsers (state (run mount (tr ++ tr3))) = onlineUsers (state (run mount tr)).
Proof.
  induction tr3 as [|e tr3 IH] using rev_ind.
  - by rewrite app_nil_r.
  - rewrite forallb_app, andb_true_iff. cbn [forallb]. rewrite andb_true_r.
    intros [Htr3 He].
    rewrite app_assoc, run_snoc, (step_onlineUsers _ _ e (run_inv (tr ++ tr3))), IH by done.
    by destruct e.
Qed.

(** C6.  Take any run of the client in which request [k] has been issued
    ([before]), its [fetch] promise then settles for the first time, with
    a response whose body parses to [data], and its [json()] promise
    settles ([between] holds whatever happens in the meantime, other
    queries starting, settling and completing in any order), and after
    which no query completes any more ([after]).  Then the online-user
    list at the end is exactly the list of [data]: the query that
    completed last decides the list, whole, whatever the queries that
    overlapped it delivered before. *)
Theorem last_completed_query_wins
    (before between after : list Event) (k : nat) (response : Response) (data : Data.t) :
  k < requested before →
  forallb (λ e, negb (settles_fetch k e)) before = true →
  body response = Some data →
  forallb (λ e, negb (settles_json k e)) between = true →
  forallb (λ e, negb (completes e)) after = true →
  onlineUsers (state (run mount
    (before ++ [FetchSettled k (Some response)] ++ between ++ [JsonSettled k] ++ after))) =
  Data.onlineUsers data.
Proof.
  intros Hk Hbefore Hbody Hbetween Hafter.
  rewrite !app_assoc, run_without_completion by done.
  rewrite run_snoc. rewrite <- !app_assoc.
  pose proof (run_awaits_fetch before k Hk Hbefore) as Hfetch.
  assert (Hjson : tasks (run mount (before ++ [FetchSettled k (Some response)])) !! k =
                  Some (AwaitJson response)).
  { rewrite run_snoc, (step_tasks _ _ _ k (run_inv before)).
    rewrite fetches_requested. simpl. rewrite Nat.add_0_r, decide_False by lia.
    by rewrite Hfetch, decide_True. }
  apply (run_awaits_json _ between) in Hjson; [|done].
  rewrite <- app_assoc in Hjson.
  rewrite (step_onlineUsers _ _ _ (run_inv _)). unfold delivered.
  cbn [app] in *. by rewrite Hjson, Hbody.
Qed.

(** Scenario 5, out of order: queries 1 and 2 overlap, query 2 completes
    first and query 1 last; a message arrives afterwards. *)
Lemma last_completed_query_wins_witness :
  onlineUsers (state (run mount
    ((session ++ [Server newConnection; Server newConnection]) ++
     [FetchSettled 1 (Some (mkResponse 200 (Some (Data.mk [alice]))))] ++
     [FetchSettled 2 (Some (mkResponse 200 (Some (Data.mk [alice; bob])))); JsonSettled 2] ++
     [JsonSettled 1] ++
     [Server (message_ (IMessage.mk "hello" "bob" (Some "c2") 999))]))) =
  [alice].
Proof.
  apply (last_completed_query_wins
           (session ++ [Server newConnection; Server newConnection])
           [FetchSettled 2 (Some (mkResponse 200 (Some (Data.mk [alice; bob])))); JsonSettled 2]
           [Server (message_ (IMessage.mk "hello" "bob" (Some "c2") 999))]
           1 (mkResponse 200 (Some (Data.mk [alice]))) (Data.mk [alice])).
  - vm_compute. lia.
  - reflexivity.
  - reflexivity.
  - reflexivity.
  - reflexivity.
Defined.
